(** * Annealing schedule and unbalanced dual scaling of geomloss

    Shallow embedding of
    - [annealing_parameters] (geomloss/ot/abstract_solvers/annealing.py),
    - [UnbalancedWeight] (geomloss/backends/torch.py).

    Floating-point numbers are modelled by the reals of the Standard Library:
    [np.log] is [ln], [np.exp] is [exp], [np.floor] followed by [int] is
    [Int_part], Python's [b ** p] with an integer [p] is [powerRZ b p].
    Python exceptions are the constructors of [py_error]. *)

From Stdlib Require Import Reals Lra Lia List ZArith.
Import ListNotations.
Open Scope R_scope.

(** ** Python exceptions and a small error monad *)

Inductive py_error : Type :=
| ValueError
| UnboundLocalError
| NotImplementedError
| IndexError.

Inductive result (A : Type) : Type :=
| Ok : A -> result A
| Err : py_error -> result A.
Arguments Ok {A} _.
Arguments Err {A} _.

Definition bind {A B : Type} (m : result A) (f : A -> result B) : result B :=
  match m with
  | Ok a => f a
  | Err e => Err e
  end.

Notation "x <- m ;; k" := (bind m (fun x => k))
  (at level 61, m at next level, right associativity).

(** ** Comparisons of floats *)

Definition Rltb (x y : R) : bool := if Rlt_dec x y then true else false.
Definition Rleb (x y : R) : bool := if Rle_dec x y then true else false.
Definition Reqb (x y : R) : bool := if Req_EM_T x y then true else false.

(** ** Data model *)

(** Keyword arguments of [annealing_parameters]; [None] is Python's [None]. *)
Record config : Type := mk_config {
  diameter : R;
  p : Z;
  blur : R;
  reach : option R;
  n_iter : option Z;
  scaling : option R;
  scales : option (list R)
}.

(** The [DescentParameters] named tuple; [None] in [rho_list] is +infinity. *)
Record DescentParameters : Type := mk_descent {
  dp_diameter : R;
  jumps : list Z;
  eps_list : list R;
  blur_list : list R;
  rho_list : list (option R)
}.

(** ** numpy helpers *)

(** [np.arange(n)] for an integer [n]. *)
Definition arange (n : Z) : list Z := map Z.of_nat (seq 0 (Z.to_nat n)).

(** [np.geomspace(start, stop, num)]: [logspace] between the logarithms of
    the end points, whose first and last entries are then overwritten by
    [start] and [stop]. *)
Definition geomspace (start stop : R) (num : Z) : list R :=
  let n := Z.to_nat num in
  map (fun i =>
         if Nat.eqb i 0 then start
         else if Nat.eqb i (n - 1) then stop
         else exp (ln start + INR i * ((ln stop - ln start) / INR (n - 1))))
      (seq 0 n).

(** ** [annealing_parameters], lines 126-187: validation, [n_iter], [blur_list] *)

(** Lines 126-140: the argument checks. *)
Definition check_arguments (c : config) : result unit :=
  _ <- match n_iter c with
       | Some n => if (n <=? 0)%Z then Err ValueError else Ok tt
       | None => Ok tt
       end ;;
  _ <- match scaling c with
       | Some s => if orb (Rleb s 0) (Rltb 1 s) then Err ValueError else Ok tt
       | None => Ok tt
       end ;;
  match n_iter c, scaling c with
  | None, None => Err ValueError
  | _, _ => Ok tt
  end.

(** Line 143: [diameter = max(diameter, blur)]. *)
Definition norm_diameter (c : config) : R := Rmax (diameter c) (blur c).

(** Lines 157-158, with [diameter] already normalised. *)
Definition derived_n_iter (diam bl s : R) : Z :=
  (Int_part ((ln bl - ln diam) / ln s) + 2)%Z.

(** Lines 126-163: the checks, then the number of iterations. *)
Definition resolve_n_iter (c : config) : result Z :=
  _ <- check_arguments c ;;
  match n_iter c with
  | Some n => Ok n
  | None =>
      match scaling c with
      | Some s =>
          if Reqb s 1 then Err ValueError
          else Ok (derived_n_iter (norm_diameter c) (blur c) s)
      | None => Err ValueError (* excluded by [check_arguments] *)
      end
  end.

(** Lines 184-187: [exp(maximum(log(diameter) + arange(n_iter) * log(scaling),
    log(blur)))]. *)
Definition floored_progression (diam bl s : R) (n : Z) : list R :=
  map (fun i => exp (Rmax (ln diam + IZR i * ln s) (ln bl))) (arange n).

(** Lines 166-187: the three policies for [blur_list]. *)
Definition make_blur_list (diam bl : R) (sc : option R) (n : Z) : list R :=
  match sc with
  | Some s =>
      if Reqb s 1 then repeat bl (Z.to_nat n)
      else floored_progression diam bl s n
  | None =>
      if (n =? 1)%Z then [bl] else geomspace diam bl n
  end.

(** Lines 126-187: [blur_list] as the function computes it. *)
Definition build_blur_list (c : config) : result (list R) :=
  n <- resolve_n_iter c ;;
  Ok (make_blur_list (norm_diameter c) (blur c) (scaling c) n).

(** ** Lines 189-197: temperatures and marginal constraints *)

Definition make_eps_list (p : Z) (bl : list R) : list R :=
  map (fun b => powerRZ b p) bl.

Definition make_rho (p : Z) (reach : option R) : option R :=
  match reach with
  | None => None
  | Some r => Some (powerRZ r p)
  end.

Definition make_rho_list (p : Z) (reach : option R) (bl : list R) : list (option R) :=
  repeat (make_rho p reach) (length bl).

(** ** Lines 200-228: the coarse-to-fine jumps *)

(** Python's [scales[k]]. *)
Definition py_index (l : list R) (k : nat) : result R :=
  match nth_error l k with
  | Some x => Ok x
  | None => Err IndexError
  end.

(** The local [jumps]: [None] while the name is unbound. *)
Definition py_append (jumps : option (list Z)) (i : Z) : result (list Z) :=
  match jumps with
  | None => Err UnboundLocalError
  | Some l => Ok (l ++ [i])
  end.

(** The [for (i, blur) in enumerate(blur_list[1:])] loop of lines 208-225,
    from index [i], with scale pointer [k] and the local [jumps]; it returns
    the final [k] and [jumps] ([break] included). *)
Fixpoint jump_loop (sc : list R) (bl : list R) (i : Z) (k : nat)
    (js : option (list Z)) : result (nat * option (list Z)) :=
  match bl with
  | [] => Ok (k, js)
  | b :: rest =>
      sk <- py_index sc k ;;
      if Rltb b sk then
        js' <- py_append js i ;;
        let k' := S k in
        if Nat.leb (length sc) k' then Ok (k', Some js')
        else
          sk' <- py_index sc k' ;;
          if Rltb b sk' then Err ValueError
          else jump_loop sc rest (i + 1)%Z k' (Some js')
      else jump_loop sc rest (i + 1)%Z k js
  end.

(** Lines 202-228; the multi-scale branch starts with [jumps] unbound, since
    line 204 is its only assignment. The result is the value of [jumps] at
    line 233, where reading an unbound name fails as well. *)
Definition compute_jumps (scs : option (list R)) (bl : list R) : result (list Z) :=
  match scs with
  | None => Ok []
  | Some sc =>
      if Nat.ltb (length sc) 2 then Ok []
      else
        r <- jump_loop sc (tl bl) 0 0 None ;;
        let '(k, js) := r in
        if Nat.ltb k (length sc) then Err NotImplementedError
        else match js with
             | None => Err UnboundLocalError
             | Some l => Ok l
             end
  end.

(** ** [annealing_parameters] *)
Definition annealing_parameters (c : config) : result DescentParameters :=
  bl <- build_blur_list c ;;
  let eps := make_eps_list (p c) bl in
  let rhos := make_rho_list (p c) (reach c) bl in
  js <- compute_jumps (scales c) bl ;;
  Ok (mk_descent (norm_diameter c) js eps bl rhos).

(** ** [UnbalancedWeight] (backends/torch.py) *)

(** A [torch.nn.Module] with the attributes [eps] and [rho]; calling the
    module runs [forward]. *)
Record UnbalancedWeight : Type := mk_weight { uw_eps : R; uw_rho : R }.

Definition forward (w : UnbalancedWeight) (x : R) : R :=
  (uw_rho w + uw_eps w / 2) * x.

(** The body of the [backward] method as written. On a [torch.nn.Module]
    this is an ordinary method: autograd never calls it when it
    differentiates through the module. *)
Definition backward (w : UnbalancedWeight) (g : R) : R :=
  (uw_rho w + uw_eps w) * g.

(** The gradient that autograd propagates through a call of the module:
    the upstream gradient [g] times the derivative of [forward], which is
    the constant [rho + eps/2] (see [forward_derivative]). *)
Definition autograd_backward (w : UnbalancedWeight) (g : R) : R :=
  (uw_rho w + uw_eps w / 2) * g.

(** * Properties *)

(** ** Comparisons *)

Lemma Rltb_true (x y : R) : Rltb x y = true <-> x < y.
Proof. unfold Rltb; destruct (Rlt_dec x y); split; intros; try congruence; lra. Qed.

Lemma Rltb_false (x y : R) : Rltb x y = false <-> y <= x.
Proof. unfold Rltb; destruct (Rlt_dec x y); split; intros; try congruence; lra. Qed.

Lemma Rleb_true (x y : R) : Rleb x y = true <-> x <= y.
Proof. unfold Rleb; destruct (Rle_dec x y); split; intros; try congruence; lra. Qed.

Lemma Rleb_false (x y : R) : Rleb x y = false <-> y < x.
Proof. unfold Rleb; destruct (Rle_dec x y); split; intros; try congruence; lra. Qed.

Lemma Reqb_true (x y : R) : Reqb x y = true <-> x = y.
Proof. unfold Reqb; destruct (Req_EM_T x y); split; intros; congruence. Qed.

Lemma Reqb_false (x y : R) : Reqb x y = false <-> x <> y.
Proof. unfold Reqb; destruct (Req_EM_T x y); split; intros; congruence. Qed.

(** Settles the float comparisons of a goal on concrete reals. *)
Ltac decide_floats :=
  repeat match goal with
  | |- context [Rltb ?x ?y] =>
      let h := fresh "Hf" in
      destruct (Rltb x y) eqn:h;
      [apply Rltb_true in h | apply Rltb_false in h]; try lra
  | |- context [Rleb ?x ?y] =>
      let h := fresh "Hf" in
      destruct (Rleb x y) eqn:h;
      [apply Rleb_true in h | apply Rleb_false in h]; try lra
  | |- context [Reqb ?x ?y] =>
      let h := fresh "Hf" in
      destruct (Reqb x y) eqn:h;
      [apply Reqb_true in h | apply Reqb_false in h]; try lra
  end.

(** ** The jump loop while [jumps] is unbound *)

(** With [jumps] unbound, the loop fails at the first blur value below the
    current scale, and otherwise never moves the scale pointer. *)
Lemma jump_loop_unbound (sc bl : list R) (i : Z) (k : nat) :
  (k < length sc)%nat ->
  jump_loop sc bl i k None =
  if existsb (fun b => Rltb b (nth k sc 0)) bl then Err UnboundLocalError
  else Ok (k, None).
Proof.
  intros Hk. revert i.
  induction bl as [| b rest IH]; intros i; simpl; [reflexivity |].
  unfold py_index.
  rewrite (nth_error_nth' sc 0 Hk); simpl.
  destruct (Rltb b (nth k sc 0)); simpl; [reflexivity | apply IH].
Qed.

(** In multi-scale mode [compute_jumps] never succeeds. *)
Lemma compute_jumps_multiscale (sc bl : list R) :
  (2 <= length sc)%nat ->
  compute_jumps (Some sc) bl =
  if existsb (fun b => Rltb b (nth 0 sc 0)) (tl bl) then Err UnboundLocalError
  else Err NotImplementedError.
Proof.
  intros H. unfold compute_jumps.
  replace (Nat.ltb (length sc) 2) with false by (symmetry; apply Nat.ltb_ge; lia).
  rewrite jump_loop_unbound by lia.
  destruct (existsb _ (tl bl)); simpl; [reflexivity |].
  replace (Nat.ltb 0 (length sc)) with true by (symmetry; apply Nat.ltb_lt; lia).
  reflexivity.
Qed.

(** ** Unfolding [annealing_parameters] *)

Lemma annealing_parameters_ok (c : config) (d : DescentParameters) :
  annealing_parameters c = Ok d ->
  exists n bl,
    resolve_n_iter c = Ok n /\
    bl = make_blur_list (norm_diameter c) (blur c) (scaling c) n /\
    compute_jumps (scales c) bl = Ok (jumps d) /\
    d = mk_descent (norm_diameter c) (jumps d) (make_eps_list (p c) bl) bl
          (make_rho_list (p c) (reach c) bl).
Proof.
  unfold annealing_parameters, build_blur_list.
  destruct (resolve_n_iter c) as [n | e]; simpl; [| discriminate].
  destruct (compute_jumps _ _) as [js | e] eqn:Hj; simpl; [| discriminate].
  intros H; injection H as <-.
  exists n, (make_blur_list (norm_diameter c) (blur c) (scaling c) n).
  simpl; repeat split; assumption.
Qed.

(** ** Facts on logarithms *)

Lemma ln_le_mono (x y : R) : 0 < x -> x <= y -> ln x <= ln y.
Proof.
  intros Hx Hxy; destruct (Rle_lt_or_eq x y Hxy) as [H | ->].
  - left; apply ln_increasing; assumption.
  - right; reflexivity.
Qed.

Lemma exp_le_mono (x y : R) : x <= y -> exp x <= exp y.
Proof.
  intros Hxy; destruct (Rle_lt_or_eq x y Hxy) as [H | ->].
  - left; apply exp_increasing; assumption.
  - right; reflexivity.
Qed.

Lemma ln_neg (s : R) : 0 < s < 1 -> ln s < 0.
Proof. intros [H0 H1]; rewrite <- ln_1; apply ln_increasing; assumption. Qed.

Lemma Int_part_nonneg (r : R) : 0 <= r -> (0 <= Int_part r)%Z.
Proof.
  intros Hr; destruct (base_Int_part r) as [_ H].
  destruct (Z_le_gt_dec 0 (Int_part r)) as [Hz | Hz]; [assumption |].
  assert (IZR (Int_part r) <= -1) by (apply IZR_le; lia). lra.
Qed.

(** The ratio of line 157 is non-negative. *)
Lemma log_ratio_nonneg (d b s : R) :
  0 < b -> b <= d -> 0 < s < 1 -> 0 <= (ln b - ln d) / ln s.
Proof.
  intros Hb Hbd Hs.
  pose proof (ln_le_mono b d Hb Hbd). pose proof (ln_neg s Hs).
  replace ((ln b - ln d) / ln s) with ((ln d - ln b) * / (- ln s))
    by (field; lra).
  apply Rmult_le_pos; [lra |]. left; apply Rinv_0_lt_compat; lra.
Qed.

Lemma derived_n_iter_ge_2 (d b s : R) :
  0 < b -> b <= d -> 0 < s < 1 -> (2 <= derived_n_iter d b s)%Z.
Proof.
  intros Hb Hbd Hs; unfold derived_n_iter.
  pose proof (Int_part_nonneg _ (log_ratio_nonneg d b s Hb Hbd Hs)); lia.
Qed.

Lemma norm_diameter_ge (c : config) : blur c <= norm_diameter c.
Proof. apply Rmax_r. Qed.

(** When [n_iter] is derived, [scaling] lies in (0, 1). *)
Lemma resolve_n_iter_derived (c : config) (n : Z) :
  resolve_n_iter c = Ok n -> n_iter c = None ->
  exists s, scaling c = Some s /\ (0 < s < 1) /\
            n = derived_n_iter (norm_diameter c) (blur c) s.
Proof.
  unfold resolve_n_iter, check_arguments.
  intros H Hn; rewrite Hn in H; simpl in H.
  destruct (scaling c) as [s |]; simpl in H; [| discriminate].
  exists s; split; [reflexivity |].
  revert H; decide_floats; simpl; intros Hr; try discriminate.
  injection Hr as <-; split; [lra | reflexivity].
Qed.

(** The resolved number of iterations is at least one. *)
Lemma resolve_n_iter_pos (c : config) (n : Z) :
  0 < blur c -> resolve_n_iter c = Ok n -> (1 <= n)%Z.
Proof.
  intros Hb H.
  destruct (n_iter c) as [m |] eqn:Hn.
  - revert H; unfold resolve_n_iter, check_arguments; rewrite Hn; simpl.
    destruct (m <=? 0)%Z eqn:Hm; simpl; [discriminate |].
    apply Z.leb_gt in Hm.
    destruct (scaling c) as [s |]; simpl; [decide_floats; simpl |];
      try discriminate; intros Hr; injection Hr as <-; lia.
  - destruct (resolve_n_iter_derived c n H Hn) as (s & _ & Hs & ->).
    pose proof (derived_n_iter_ge_2 (norm_diameter c) (blur c) s Hb
                  (norm_diameter_ge c) Hs); lia.
Qed.

(** When it is given, [scaling] lies in (0, 1]. *)
Lemma resolve_n_iter_scaling (c : config) (n : Z) (s : R) :
  resolve_n_iter c = Ok n -> scaling c = Some s -> 0 < s <= 1.
Proof.
  unfold resolve_n_iter, check_arguments; intros H Hs; rewrite Hs in H.
  destruct (n_iter c) as [m |]; simpl in H;
    [destruct (m <=? 0)%Z; simpl in H; [discriminate |] |];
    revert H; decide_floats; simpl; intros; discriminate.
Qed.

(** ** Lists indexed by [seq] *)

Lemma nth_map_seq (f : nat -> R) (N i : nat) (d : R) :
  (i < N)%nat -> nth i (map f (seq 0 N)) d = f i.
Proof.
  intros Hi.
  rewrite nth_indep with (d' := f 0%nat) by (rewrite length_map, length_seq; lia).
  rewrite map_nth, seq_nth by lia. reflexivity.
Qed.

Lemma last_map_seq (f : nat -> R) (N : nat) (d : R) :
  (1 <= N)%nat -> last (map f (seq 0 N)) d = f (N - 1)%nat.
Proof.
  intros HN; destruct N as [| N]; [lia |].
  rewrite seq_S, map_app; cbn [map]; rewrite last_last. f_equal; lia.
Qed.

Lemma repeat_as_map (x : R) (N s : nat) :
  repeat x N = map (fun _ => x) (seq s N).
Proof. revert s; induction N as [| N IH]; intros s; simpl; [| f_equal]; auto. Qed.

(** A blur schedule of [N] values: non-increasing, bounded below by [b]. *)
Definition schedule_shape (b : R) (N : nat) (f : nat -> R) : Prop :=
  (forall i j, (i <= j < N)%nat -> f j <= f i) /\
  (forall i, (i < N)%nat -> b <= f i).

(** ** The three policies of lines 166-187 *)

Definition geom_term (d b : R) (N i : nat) : R :=
  exp (ln d + INR i * ((ln b - ln d) / INR (N - 1))).

Lemma geomspace_as_map (d b : R) (num : Z) :
  geomspace d b num =
  map (fun i => if Nat.eqb i 0 then d
                else if Nat.eqb i (Z.to_nat num - 1) then b
                else geom_term d b (Z.to_nat num) i)
      (seq 0 (Z.to_nat num)).
Proof. reflexivity. Qed.

Lemma geom_term_end_points (d b : R) (N : nat) :
  0 < b -> 0 < d -> (2 <= N)%nat ->
  geom_term d b N 0 = d /\ geom_term d b N (N - 1) = b.
Proof.
  intros Hb Hd HN; unfold geom_term; split.
  - simpl; rewrite Rmult_0_l, Rplus_0_r; apply exp_ln; assumption.
  - assert (0 < INR (N - 1)) by (apply lt_0_INR; lia).
    replace (ln d + INR (N - 1) * ((ln b - ln d) / INR (N - 1))) with (ln b)
      by (field; lra).
    apply exp_ln; assumption.
Qed.

Lemma geom_term_antitone (d b : R) (N i j : nat) :
  0 < b -> b <= d -> (2 <= N)%nat -> (i <= j)%nat ->
  geom_term d b N j <= geom_term d b N i.
Proof.
  intros Hb Hbd HN Hij; unfold geom_term; apply exp_le_mono.
  pose proof (ln_le_mono b d Hb Hbd).
  assert (0 < INR (N - 1)) by (apply lt_0_INR; lia).
  assert (INR i <= INR j) by (apply le_INR; assumption).
  assert ((ln b - ln d) / INR (N - 1) <= 0).
  { unfold Rdiv; pose proof (Rinv_0_lt_compat _ H0); nra. }
  nra.
Qed.

Lemma geomspace_shape (d b : R) (num : Z) :
  0 < b -> b <= d -> (2 <= Z.to_nat num)%nat ->
  geomspace d b num = map (geom_term d b (Z.to_nat num)) (seq 0 (Z.to_nat num)).
Proof.
  intros Hb Hbd HN; rewrite geomspace_as_map.
  destruct (geom_term_end_points d b (Z.to_nat num) Hb ltac:(lra) HN) as [H0 H1].
  apply map_ext_in; intros i Hi; apply in_seq in Hi.
  destruct (Nat.eqb_spec i 0) as [-> | Hi0]; [symmetry; assumption |].
  destruct (Nat.eqb_spec i (Z.to_nat num - 1)) as [-> | Hi1]; [symmetry; assumption |].
  reflexivity.
Qed.

Definition floor_term (d b s : R) (i : nat) : R :=
  exp (Rmax (ln d + IZR (Z.of_nat i) * ln s) (ln b)).

Lemma floored_as_map (d b s : R) (n : Z) :
  floored_progression d b s n = map (floor_term d b s) (seq 0 (Z.to_nat n)).
Proof. unfold floored_progression, arange; rewrite map_map; reflexivity. Qed.

Lemma floor_term_antitone (d b s : R) (i j : nat) :
  0 < s <= 1 -> (i <= j)%nat -> floor_term d b s j <= floor_term d b s i.
Proof.
  intros Hs Hij; unfold floor_term; apply exp_le_mono.
  assert (ln s <= 0) by (rewrite <- ln_1; apply ln_le_mono; lra).
  rewrite <- !INR_IZR_INZ.
  assert (INR i <= INR j) by (apply le_INR; assumption).
  apply Rmax_lub; [| apply Rmax_r].
  eapply Rle_trans; [| apply Rmax_l]. nra.
Qed.

Lemma floor_term_ge (d b s : R) (i : nat) : 0 < b -> b <= floor_term d b s i.
Proof.
  intros Hb; unfold floor_term; rewrite <- (exp_ln b Hb) at 1.
  apply exp_le_mono, Rmax_r.
Qed.

(** Every [blur_list] is a non-increasing schedule of [n_iter] values that
    stays at or above [blur]. *)
Lemma blur_list_shape (c : config) (n : Z) :
  0 < blur c -> resolve_n_iter c = Ok n ->
  exists f,
    make_blur_list (norm_diameter c) (blur c) (scaling c) n = map f (seq 0 (Z.to_nat n)) /\
    schedule_shape (blur c) (Z.to_nat n) f.
Proof.
  intros Hb Hr.
  pose proof (norm_diameter_ge c) as Hbd.
  pose proof (resolve_n_iter_pos c n Hb Hr) as Hn.
  unfold make_blur_list. destruct (scaling c) as [s |] eqn:Hs.
  - pose proof (resolve_n_iter_scaling c n s Hr Hs) as Hs01.
    destruct (Reqb s 1).
    + exists (fun _ => blur c); split; [apply repeat_as_map |].
      split; intros; lra.
    + exists (floor_term (norm_diameter c) (blur c) s).
      split; [apply floored_as_map |]. split.
      * intros i j Hij; apply floor_term_antitone; [assumption | lia].
      * intros i _; apply floor_term_ge; assumption.
  - destruct (Z.eqb_spec n 1) as [-> | Hn1].
    + exists (fun _ => blur c); split; [reflexivity |]. split; intros; lra.
    + assert (HN : (2 <= Z.to_nat n)%nat) by lia.
      exists (geom_term (norm_diameter c) (blur c) (Z.to_nat n)).
      split; [apply geomspace_shape; assumption |]. split.
      * intros i j Hij; apply geom_term_antitone; [assumption .. | lia].
      * intros i Hi.
        destruct (geom_term_end_points (norm_diameter c) (blur c) (Z.to_nat n)
                    Hb ltac:(lra) HN) as [_ Hlast].
        rewrite <- Hlast at 1. apply geom_term_antitone; [assumption .. | lia].
Qed.

Lemma make_blur_list_length (c : config) (n : Z) :
  0 < blur c -> resolve_n_iter c = Ok n ->
  length (make_blur_list (norm_diameter c) (blur c) (scaling c) n) = Z.to_nat n.
Proof.
  intros Hb Hr; destruct (blur_list_shape c n Hb Hr) as (f & -> & _).
  rewrite length_map, length_seq; reflexivity.
Qed.

(** ** The last blur value *)

Lemma exp_Rmax (x y : R) : exp (Rmax x y) = Rmax (exp x) (exp y).
Proof.
  destruct (Rle_dec x y) as [H | H].
  - rewrite !Rmax_right; [reflexivity | apply exp_le_mono | ]; assumption.
  - rewrite !Rmax_left; [reflexivity | apply exp_le_mono | ]; lra.
Qed.

(** With a derived [n_iter], the last term of the floored progression is
    [blur]. *)
Lemma floor_term_last_derived (d b s : R) :
  0 < b -> b <= d -> 0 < s < 1 ->
  floor_term d b s (Z.to_nat (derived_n_iter d b s) - 1) = b.
Proof.
  intros Hb Hbd Hs; unfold floor_term, derived_n_iter.
  set (r := (ln b - ln d) / ln s).
  pose proof (Int_part_nonneg r (log_ratio_nonneg d b s Hb Hbd Hs)) as Hip.
  destruct (base_Int_part r) as [_ Hup].
  replace (Z.of_nat (Z.to_nat (Int_part r + 2) - 1)) with (Int_part r + 1)%Z by lia.
  rewrite plus_IZR.
  pose proof (ln_neg s Hs) as Hl.
  assert (Hr : r * ln s = ln b - ln d) by (unfold r; field; lra).
  assert ((IZR (Int_part r) + 1 - r) * ln s < 0) by nra.
  rewrite Rmax_right by nra. apply exp_ln; assumption.
Qed.

(** With both [n_iter] and [scaling] given, the [k]-th term of the floored
    progression is [max(diameter * scaling^k, blur)]. *)
Lemma floor_term_closed (d b s : R) (k : nat) :
  0 < d -> 0 < b -> 0 < s ->
  floor_term d b s k = Rmax (d * s ^ k) b.
Proof.
  intros Hd Hb Hs; unfold floor_term.
  rewrite exp_Rmax, exp_plus, exp_ln, exp_ln by assumption.
  rewrite <- INR_IZR_INZ, <- (Rpower_pow k s Hs). reflexivity.
Qed.

Lemma resolve_n_iter_given (c : config) (m n : Z) :
  n_iter c = Some m -> resolve_n_iter c = Ok n -> n = m.
Proof.
  unfold resolve_n_iter; intros Hm H.
  destruct (check_arguments c); simpl in H; [| discriminate].
  rewrite Hm in H; injection H as <-; reflexivity.
Qed.

(** The floor [blur] is the last value unless both [n_iter] and a
    [scaling] below 1 are given. *)
Lemma blur_list_last_floor (c : config) (n : Z) :
  0 < blur c -> resolve_n_iter c = Ok n ->
  n_iter c = None \/ scaling c = None \/ scaling c = Some 1 ->
  last (make_blur_list (norm_diameter c) (blur c) (scaling c) n) 0 = blur c.
Proof.
  intros Hb Hr Hcase.
  pose proof (norm_diameter_ge c) as Hbd.
  pose proof (resolve_n_iter_pos c n Hb Hr) as Hn.
  unfold make_blur_list. destruct (scaling c) as [s |] eqn:Hs.
  - destruct (Reqb s 1) eqn:E.
    + rewrite (repeat_as_map _ _ 0), last_map_seq by lia; reflexivity.
    + apply Reqb_false in E.
      destruct Hcase as [Hni | [Hsc | Hsc]]; try (injection Hsc; congruence);
        try discriminate.
      destruct (resolve_n_iter_derived c n Hr Hni) as (s' & Hs' & Hs01 & ->).
      rewrite Hs in Hs'; injection Hs' as <-.
      rewrite floored_as_map, last_map_seq by lia.
      apply floor_term_last_derived; assumption.
  - destruct (Z.eqb_spec n 1) as [-> | Hn1]; [reflexivity |].
    assert (HN : (2 <= Z.to_nat n)%nat) by lia.
    rewrite geomspace_shape, last_map_seq by (assumption || lia).
    apply (geom_term_end_points (norm_diameter c) (blur c) (Z.to_nat n) Hb
             ltac:(lra) HN).
Qed.

Lemma blur_list_last_both (c : config) (n m : Z) (s : R) :
  0 < blur c -> resolve_n_iter c = Ok n ->
  n_iter c = Some m -> scaling c = Some s -> s <> 1 ->
  last (make_blur_list (norm_diameter c) (blur c) (scaling c) n) 0 =
  Rmax (norm_diameter c * s ^ (Z.to_nat m - 1)) (blur c).
Proof.
  intros Hb Hr Hm Hs Hs1.
  pose proof (norm_diameter_ge c) as Hbd.
  pose proof (resolve_n_iter_pos c n Hb Hr) as Hn.
  pose proof (resolve_n_iter_scaling c n s Hr Hs) as Hs01.
  pose proof (resolve_n_iter_given c m n Hm Hr); subst n.
  unfold make_blur_list; rewrite Hs.
  replace (Reqb s 1) with false by (symmetry; apply Reqb_false; assumption).
  rewrite floored_as_map, last_map_seq by lia.
  apply floor_term_closed; lra.
Qed.

(** ** Errors of [annealing_parameters] *)

Lemma compute_jumps_not_value_error (scs : option (list R)) (bl : list R) :
  compute_jumps scs bl <> Err ValueError.
Proof.
  destruct scs as [sc |]; [| discriminate].
  destruct (Nat.ltb_spec (length sc) 2) as [Hl | Hl].
  - unfold compute_jumps; rewrite (proj2 (Nat.ltb_lt _ _) Hl); discriminate.
  - rewrite compute_jumps_multiscale by assumption.
    destruct (existsb _ _); discriminate.
Qed.

Lemma annealing_parameters_value_error (c : config) :
  annealing_parameters c = Err ValueError <-> resolve_n_iter c = Err ValueError.
Proof.
  unfold annealing_parameters, build_blur_list.
  destruct (resolve_n_iter c) as [n | e]; simpl;
    [| split; intros H; injection H as ->; reflexivity].
  split; [| discriminate].
  destruct (compute_jumps _ _) eqn:Hj; simpl; [discriminate |].
  intros H; injection H as ->.
  exfalso; eapply compute_jumps_not_value_error; eassumption.
Qed.

(** ** Concrete configurations *)

(** One iteration of plain Sinkhorn with [reach = 2]. *)
Definition cfg_single : config :=
  mk_config 1 2 1 (Some 2) (Some 1%Z) (Some 1) None.

Definition dp_single : DescentParameters :=
  mk_descent (Rmax 1 1) [] [powerRZ 1 2] [1] [Some (powerRZ 2 2)].

Lemma annealing_parameters_single : annealing_parameters cfg_single = Ok dp_single.
Proof.
  unfold annealing_parameters, build_blur_list, resolve_n_iter, check_arguments.
  simpl; decide_floats; simpl. reflexivity.
Qed.

(** Every failure of lines 126-158 is a [ValueError]. *)
Lemma resolve_n_iter_errors (c : config) (e : py_error) :
  resolve_n_iter c = Err e -> e = ValueError.
Proof.
  unfold resolve_n_iter, check_arguments.
  destruct (n_iter c) as [m |], (scaling c) as [s |]; simpl;
    try destruct (m <=? 0)%Z; simpl; decide_floats; simpl;
    intros H; first [discriminate | injection H as <-; reflexivity].
Qed.

(** The validation cases of lines 126-153. *)
Lemma resolve_n_iter_value_error (c : config) :
  resolve_n_iter c = Err ValueError <->
  (exists n, n_iter c = Some n /\ (n <= 0)%Z) \/
  (exists s, scaling c = Some s /\ (s <= 0 \/ 1 < s)) \/
  (n_iter c = None /\ scaling c = None) \/
  (n_iter c = None /\ scaling c = Some 1).
Proof.
  unfold resolve_n_iter, check_arguments.
  destruct (n_iter c) as [m |], (scaling c) as [s |]; simpl;
    try destruct (Z.leb_spec m 0); simpl; decide_floats; simpl.
  all: split; [intros Hv | intros Hc].
  all: try discriminate; try reflexivity.
  all: try (left; exists m; split; [reflexivity | lia]).
  all: try (right; left; exists s; split; [reflexivity | lra]).
  all: try (right; right; right; split; [reflexivity | f_equal; lra]).
  all: try (right; right; left; split; reflexivity).
  all: destruct Hc as [(n' & Hn & Hle) | [(s' & Hs & Hle) | [[H1 H2] | [H1 H2]]]];
    try discriminate.
  all: try (injection Hn as <-; lia).
  all: try (injection Hs as <-; lra).
  all: try (injection H2 as <-; lra).
  all: injection H2; intros; contradiction.
Qed.

(** A schedule [1, 1/2, 1/4] that crosses the scales [4/5] and [2/5] one
    at a time. *)
Definition cfg_multiscale : config :=
  mk_config 1 2 (1/4) None (Some 3%Z) (Some (1/2)) (Some [4/5; 2/5]).

(** Two declared scales finer than every blur value. *)
Definition cfg_coarse : config :=
  mk_config 1 2 (1/4) None (Some 2%Z) (Some 1) (Some [1/8; 1/16]).

(** [n_iter = 3] with no [scaling]: the schedule [np.geomspace(1, 1/4, 3)]. *)
Definition cfg_geom : config :=
  mk_config 1 2 (1/4) None (Some 3%Z) None None.

(** A schedule [4, 1/10] that drops below both scales [1] and [1/2] at once. *)
Definition cfg_steep : config :=
  mk_config 4 2 (1/10) None (Some 2%Z) None (Some [1; 1/2]).


Lemma build_blur_list_coarse : build_blur_list cfg_coarse = Ok [1/4; 1/4].
Proof.
  unfold build_blur_list, resolve_n_iter, check_arguments; simpl.
  decide_floats; simpl; reflexivity.
Qed.

(** * Claims *)

(** ** C4 *)

(** C4: [annealing_parameters] fails with [ValueError] (invalid argument)
    exactly when [n_iter] is given and [<= 0], [scaling] is given outside
    (0, 1], both are absent, or [scaling = 1] with no [n_iter]. No other
    path raises [ValueError], and a failure returns no [DescentParameters]. *)
Theorem C4_value_error_cases (c : config) (Hb : 0 < blur c) :
  annealing_parameters c = Err ValueError <->
  (exists n, n_iter c = Some n /\ (n <= 0)%Z) \/
  (exists s, scaling c = Some s /\ (s <= 0 \/ 1 < s)) \/
  (n_iter c = None /\ scaling c = None) \/
  (n_iter c = None /\ scaling c = Some 1).
Proof.
  rewrite annealing_parameters_value_error. apply resolve_n_iter_value_error.
Qed.

Lemma C4_value_error_cases_witness :
  0 < blur cfg_single /\
  (annealing_parameters cfg_single = Err ValueError <->
   (exists n, n_iter cfg_single = Some n /\ (n <= 0)%Z) \/
   (exists s, scaling cfg_single = Some s /\ (s <= 0 \/ 1 < s)) \/
   (n_iter cfg_single = None /\ scaling cfg_single = None) \/
   (n_iter cfg_single = None /\ scaling cfg_single = Some 1)).
Proof.
  split; [simpl; lra |]. apply C4_value_error_cases. simpl; lra.
Defined.

(** ** C6 *)

(** C6: a returned [blur_list], [eps_list] and [rho_list] all have length
    [n_iter >= 1] (given or derived) and [eps_list[i] = blur_list[i] ** p]. *)
Theorem C6_lengths_and_temperatures (c : config) (d : DescentParameters)
  (Hb : 0 < blur c) (H : annealing_parameters c = Ok d) :
  exists n, resolve_n_iter c = Ok n /\ (1 <= n)%Z /\
    length (blur_list d) = Z.to_nat n /\
    length (eps_list d) = Z.to_nat n /\
    length (rho_list d) = Z.to_nat n /\
    (forall i, (i < Z.to_nat n)%nat ->
       nth i (eps_list d) 0 = powerRZ (nth i (blur_list d) 0) (p c)).
Proof.
  destruct (annealing_parameters_ok c d H) as (n & bl & Hr & Hbl & _ & Hd).
  pose proof (make_blur_list_length c n Hb Hr) as Hlen; rewrite <- Hbl in Hlen.
  exists n; rewrite Hd; simpl. repeat split.
  - assumption.
  - apply (resolve_n_iter_pos c n Hb Hr).
  - assumption.
  - unfold make_eps_list; rewrite length_map; assumption.
  - unfold make_rho_list; rewrite repeat_length; assumption.
  - intros i Hi; unfold make_eps_list.
    rewrite nth_indep with (d' := powerRZ 0 (p c)) by (rewrite length_map; lia).
    apply (map_nth (fun b => powerRZ b (p c))).
Qed.

Lemma C6_lengths_and_temperatures_witness :
  0 < blur cfg_single /\ annealing_parameters cfg_single = Ok dp_single /\
  exists n, resolve_n_iter cfg_single = Ok n /\ (1 <= n)%Z /\
    length (blur_list dp_single) = Z.to_nat n /\
    length (eps_list dp_single) = Z.to_nat n /\
    length (rho_list dp_single) = Z.to_nat n /\
    (forall i, (i < Z.to_nat n)%nat ->
       nth i (eps_list dp_single) 0 =
       powerRZ (nth i (blur_list dp_single) 0) (p cfg_single)).
Proof.
  split; [simpl; lra |]. split; [apply annealing_parameters_single |].
  apply C6_lengths_and_temperatures; [simpl; lra | apply annealing_parameters_single].
Defined.

(** ** C7 *)

(** C7: [rho_list] is constant: every entry is [None] (rho = +infinity)
    when [reach] is absent, and [reach ** p] when it is given. *)
Theorem C7_constant_rho (c : config) (d : DescentParameters)
  (H : annealing_parameters c = Ok d) :
  length (rho_list d) = length (blur_list d) /\
  (reach c = None -> forall x, In x (rho_list d) -> x = None) /\
  (forall r, reach c = Some r ->
     forall x, In x (rho_list d) -> x = Some (powerRZ r (p c))).
Proof.
  destruct (annealing_parameters_ok c d H) as (n & bl & _ & _ & _ & Hd).
  rewrite Hd; simpl; unfold make_rho_list, make_rho.
  split; [apply repeat_length |]. split.
  - intros Hr x Hx; apply repeat_spec in Hx; rewrite Hx, Hr; reflexivity.
  - intros r Hr x Hx; apply repeat_spec in Hx; rewrite Hx, Hr; reflexivity.
Qed.

Lemma C7_constant_rho_witness :
  annealing_parameters cfg_single = Ok dp_single /\
  length (rho_list dp_single) = length (blur_list dp_single) /\
  (reach cfg_single = None -> forall x, In x (rho_list dp_single) -> x = None) /\
  (forall r, reach cfg_single = Some r ->
     forall x, In x (rho_list dp_single) -> x = Some (powerRZ r (p cfg_single))).
Proof.
  split; [apply annealing_parameters_single |].
  apply C7_constant_rho; apply annealing_parameters_single.
Defined.

(** ** C8 *)

(** [forward] is linear, with derivative [rho + eps/2] at every point. *)
Lemma forward_derivative (w : UnbalancedWeight) (x : R) :
  derivable_pt_lim (forward w) x (uw_rho w + uw_eps w / 2).
Proof.
  intros e He. exists (mkposreal 1 Rlt_0_1). intros h Hh _.
  unfold forward.
  replace (((uw_rho w + uw_eps w / 2) * (x + h) - (uw_rho w + uw_eps w / 2) * x) / h -
           (uw_rho w + uw_eps w / 2)) with 0 by (field; exact Hh).
  rewrite Rabs_R0; exact He.
Qed.

(** C8: in the backward pass through [UnbalancedWeight(eps, rho)] the
    upstream gradient [g] should be multiplied by [rho + eps]. The module's
    [forward] returns [(rho + eps/2) * x], and autograd propagates [g] times
    the derivative of [forward], which is [rho + eps/2]: for [eps = 2],
    [rho = 3], [forward(4) = 16] but the propagated gradient of [g = 4] is
    [16], not [backward(4) = 20]. The two agree only when [eps = 0] or
    [g = 0]. *)
Theorem C8_backward_pass_gradient (eps rho x g : R) :
  forward (mk_weight eps rho) x = (rho + eps / 2) * x /\
  (forall l, derivable_pt_lim (forward (mk_weight eps rho)) x l <-> l = rho + eps / 2) /\
  autograd_backward (mk_weight eps rho) g = (rho + eps / 2) * g /\
  forward (mk_weight 2 3) 4 = 16 /\
  autograd_backward (mk_weight 2 3) 4 = 16 /\
  backward (mk_weight 2 3) 4 = 20 /\
  (autograd_backward (mk_weight eps rho) g = (rho + eps) * g <-> eps = 0 \/ g = 0).
Proof.
  pose proof (forward_derivative (mk_weight eps rho) x) as Hd; simpl in Hd.
  split; [reflexivity |]. split.
  { intros l; split.
    - intros Hl; exact (uniqueness_limite _ _ _ _ Hl Hd).
    - intros ->; exact Hd. }
  unfold forward, autograd_backward, backward; simpl.
  split; [reflexivity |].
  split; [lra |]. split; [lra |]. split; [lra |].
  split.
  - intros He.
    assert (Hz : eps * g = 0) by lra.
    destruct (Rmult_integral _ _ Hz) as [Hg | Hg]; [left | right]; exact Hg.
  - intros [-> | ->]; lra.
Qed.

(** ** C10 *)

(** C10: with at least two [scales] and arguments that pass validation,
    [annealing_parameters] never returns: [jumps] is unbound in the
    multi-scale branch, so a blur value of [blur_list[1:]] below [scales[0]]
    raises [UnboundLocalError] at [jumps.append], and otherwise [k] stays 0
    and the call raises [NotImplementedError]. *)
Theorem C10_multiscale_never_returns (c : config) (bl sc : list R)
  (Hbl : build_blur_list c = Ok bl) (Hsc : scales c = Some sc)
  (Hlen : (2 <= length sc)%nat) :
  annealing_parameters c =
    (if existsb (fun b => Rltb b (nth 0 sc 0)) (tl bl)
     then Err UnboundLocalError else Err NotImplementedError) /\
  (forall d, annealing_parameters c <> Ok d).
Proof.
  assert (Hap : annealing_parameters c =
    if existsb (fun b => Rltb b (nth 0 sc 0)) (tl bl)
    then Err UnboundLocalError else Err NotImplementedError).
  { unfold annealing_parameters; rewrite Hbl; simpl; rewrite Hsc.
    rewrite compute_jumps_multiscale by assumption.
    destruct (existsb _ _); reflexivity. }
  split; [exact Hap |].
  intros d; rewrite Hap; destruct (existsb _ _); discriminate.
Qed.

Lemma C10_multiscale_never_returns_witness :
  build_blur_list cfg_coarse = Ok [1/4; 1/4] /\
  scales cfg_coarse = Some [1/8; 1/16] /\
  (2 <= length [1/8; 1/16])%nat /\
  annealing_parameters cfg_coarse = Err NotImplementedError.
Proof.
  split; [apply build_blur_list_coarse |]. split; [reflexivity |].
  split; [simpl; lia |].
  destruct (C10_multiscale_never_returns cfg_coarse [1/4; 1/4] [1/8; 1/16]
              build_blur_list_coarse eq_refl ltac:(simpl; lia)) as [Hap _].
  rewrite Hap; simpl; decide_floats; reflexivity.
Defined.

(** ** Jumps in single-scale mode *)

(** Without [scales], or with fewer than two, the returned [jumps] is empty. *)
Lemma jumps_single_scale (c : config) (d : DescentParameters) :
  annealing_parameters c = Ok d ->
  (scales c = None \/ exists sc, scales c = Some sc /\ (length sc < 2)%nat) ->
  jumps d = [].
Proof.
  intros H Hs.
  destruct (annealing_parameters_ok c d H) as (n & bl & _ & _ & Hj & _).
  destruct Hs as [Hs | (sc & Hs & Hl)]; rewrite Hs in Hj; unfold compute_jumps in Hj.
  - injection Hj as <-; reflexivity.
  - rewrite (proj2 (Nat.ltb_lt _ _) Hl) in Hj; injection Hj as <-; reflexivity.
Qed.

(** ** C5 *)

(** C5: on [cfg_steep] the schedule [4, 1/10] drops below both [scales[0] = 1]
    and [scales[1] = 1/2] at its second value, the case the code means to
    report with a [ValueError] (lines 220-225); the call raises
    [UnboundLocalError] at [jumps.append] first. *)
Theorem C5_steep_schedule_unbound :
  build_blur_list cfg_steep = Ok [4; 1/10] /\
  1/10 < 1 /\ 1/10 < 1/2 /\
  annealing_parameters cfg_steep = Err UnboundLocalError.
Proof.
  assert (Hbl : build_blur_list cfg_steep = Ok [4; 1/10]).
  { unfold build_blur_list, resolve_n_iter, check_arguments, norm_diameter; simpl.
    unfold geomspace; simpl.
    rewrite Rmax_left by lra. reflexivity. }
  split; [exact Hbl |]. split; [lra |]. split; [lra |].
  unfold annealing_parameters; rewrite Hbl; simpl.
  unfold compute_jumps; simpl. unfold py_index; simpl.
  decide_floats; reflexivity.
Qed.

(** ** Schedules given by both [n_iter] and [scaling] *)

(** [n_iter = 2], [scaling = 1/2], [diameter = 1], [blur = 1/10]. *)
Definition cfg_both : config :=
  mk_config 1 2 (1/10) None (Some 2%Z) (Some (1/2)) None.

Lemma build_blur_list_both : build_blur_list cfg_both = Ok [1; 1/2].
Proof.
  unfold build_blur_list, resolve_n_iter, check_arguments; simpl.
  decide_floats; simpl.
  unfold make_blur_list; decide_floats.
  rewrite floored_as_map; simpl.
  unfold norm_diameter; simpl; rewrite (Rmax_left 1 (1/10)) by lra.
  rewrite !floor_term_closed by lra; simpl.
  rewrite (Rmax_left (1 * 1)), (Rmax_left (1 * (1/2 * 1))) by lra.
  f_equal; f_equal; [| f_equal]; lra.
Qed.

Lemma build_blur_list_multiscale :
  build_blur_list cfg_multiscale = Ok [1; 1/2; 1/4].
Proof.
  unfold build_blur_list, resolve_n_iter, check_arguments; simpl.
  decide_floats; simpl.
  unfold make_blur_list; decide_floats.
  rewrite floored_as_map; simpl.
  unfold norm_diameter; simpl; rewrite (Rmax_left 1 (1/4)) by lra.
  rewrite !floor_term_closed by lra; simpl.
  rewrite (Rmax_left (1 * 1)), (Rmax_left (1 * (1/2 * 1))),
    (Rmax_left (1 * (1/2 * (1/2 * 1)))) by lra.
  f_equal; f_equal; [| f_equal; [| f_equal]]; lra.
Qed.

(** ** C1 *)

(** C1: in multi-scale mode a valid configuration should return
    [len(scales) - 1] strictly increasing jumps in [0, n_iter). On
    [cfg_multiscale] (blur_list [1, 1/2, 1/4], scales [4/5, 2/5]) the
    schedule crosses one scale at a time, so neither the too-steep
    [ValueError] nor the [NotImplementedError] applies; the call raises
    [UnboundLocalError] at [jumps.append] instead of returning. The loop of
    lines 208-225 started from a bound [jumps = []] would finish with
    [k = len(scales) = 2] and [jumps = [0, 1]]. *)
Theorem C1_multiscale_jumps_unbound :
  build_blur_list cfg_multiscale = Ok [1; 1/2; 1/4] /\
  annealing_parameters cfg_multiscale = Err UnboundLocalError /\
  jump_loop [4/5; 2/5] (tl [1; 1/2; 1/4]) 0 0 (Some []) = Ok (2%nat, Some [0; 1]%Z).
Proof.
  split; [apply build_blur_list_multiscale |]. split.
  - unfold annealing_parameters; rewrite build_blur_list_multiscale; simpl.
    unfold compute_jumps; simpl. unfold py_index; simpl.
    decide_floats; reflexivity.
  - simpl; unfold py_index; simpl. decide_floats; simpl.
    unfold py_index; simpl; decide_floats; reflexivity.
Qed.

(** ** The schedule of the docstring: [diameter = 1], [blur = 0.01],
    [scaling = 0.1], [p = 2], [n_iter] derived *)

Definition cfg_paper : config :=
  mk_config 1 2 (1/100) None None (Some (1/10)) None.

Lemma ln_one_hundredth : ln (1/100) = 2 * ln (1/10).
Proof.
  replace (1/100) with (1/10 * (1/10)) by field.
  rewrite ln_mult by lra; ring.
Qed.

Lemma resolve_n_iter_paper : resolve_n_iter cfg_paper = Ok 4%Z.
Proof.
  unfold resolve_n_iter, check_arguments; simpl; decide_floats; simpl.
  unfold derived_n_iter, norm_diameter; simpl.
  rewrite (Rmax_left 1 (1/100)) by lra.
  rewrite ln_one_hundredth, ln_1.
  pose proof (ln_neg (1/10) ltac:(lra)).
  replace ((2 * ln (1/10) - 0) / ln (1/10)) with (IZR 2) by (field; lra).
  rewrite <- (Int_part_spec (IZR 2) 2) by lra. reflexivity.
Qed.

Lemma build_blur_list_paper :
  build_blur_list cfg_paper = Ok [1; 1/10; 1/100; 1/100].
Proof.
  unfold build_blur_list; rewrite resolve_n_iter_paper; simpl.
  unfold make_blur_list; decide_floats.
  rewrite floored_as_map; simpl.
  unfold norm_diameter; simpl; rewrite (Rmax_left 1 (1/100)) by lra.
  rewrite !floor_term_closed by lra; simpl.
  rewrite (Rmax_left (1 * 1)), (Rmax_left (1 * (1/10 * 1))),
    (Rmax_right (1 * (1/10 * (1/10 * 1)))), (Rmax_right (1 * (1/10 * (1/10 * (1/10 * 1)))))
    by lra.
  f_equal; f_equal; [| f_equal]; lra.
Qed.

(** ** C2 *)

(** C2 (amended): when [n_iter] or [scaling] is absent, the last value of a
    returned [blur_list] is [blur]; when both are given with [scaling <> 1],
    it is [max(max(diameter, blur) * scaling ** (n_iter - 1), blur)], which
    is above [blur] when [n_iter] is too small. *)
Theorem C2_last_blur (c : config) (d : DescentParameters)
  (Hb : 0 < blur c) (H : annealing_parameters c = Ok d) :
  (n_iter c = None \/ scaling c = None -> last (blur_list d) 0 = blur c) /\
  (forall m s, n_iter c = Some m -> scaling c = Some s -> s <> 1 ->
     last (blur_list d) 0 = Rmax (norm_diameter c * s ^ (Z.to_nat m - 1)) (blur c)).
Proof.
  destruct (annealing_parameters_ok c d H) as (n & bl & Hr & Hbl & _ & Hd).
  rewrite Hd; simpl; subst bl. split.
  - intros Hcase; apply blur_list_last_floor; [assumption .. |].
    destruct Hcase; [left | right; left]; assumption.
  - intros m s Hm Hs Hs1; apply blur_list_last_both; assumption.
Qed.

Lemma C2_last_blur_witness :
  (0 < blur cfg_paper /\ n_iter cfg_paper = None /\
   exists d, annealing_parameters cfg_paper = Ok d /\
     blur_list d = [1; 1/10; 1/100; 1/100] /\
     last (blur_list d) 0 = blur cfg_paper /\ last (blur_list d) 0 = 1/100) /\
  (0 < blur cfg_both /\ n_iter cfg_both = Some 2%Z /\ scaling cfg_both = Some (1/2) /\
   1/2 <> 1 /\
   exists d, annealing_parameters cfg_both = Ok d /\
     last (blur_list d) 0 =
       Rmax (norm_diameter cfg_both * (1/2) ^ (Z.to_nat 2 - 1)) (blur cfg_both) /\
     last (blur_list d) 0 = 1/2).
Proof.
  split.
  - assert (Hb : 0 < blur cfg_paper) by (simpl; lra).
    split; [exact Hb |]. split; [reflexivity |].
    destruct (annealing_parameters cfg_paper) as [d |] eqn:Hap.
    + exists d; split; [reflexivity |].
      assert (Hl : last (blur_list d) 0 = blur cfg_paper)
        by (apply (proj1 (C2_last_blur cfg_paper d Hb Hap)); left; reflexivity).
      split; [| split; [exact Hl | rewrite Hl; reflexivity]].
      revert Hap; unfold annealing_parameters; rewrite build_blur_list_paper.
      simpl; intros Hap; injection Hap as <-; reflexivity.
    + exfalso; revert Hap; unfold annealing_parameters;
        rewrite build_blur_list_paper; simpl; discriminate.
  - assert (Hb : 0 < blur cfg_both) by (simpl; lra).
    split; [exact Hb |]. split; [reflexivity |]. split; [reflexivity |].
    split; [lra |].
    destruct (annealing_parameters cfg_both) as [d |] eqn:Hap.
    + exists d; split; [reflexivity |].
      assert (Hl : last (blur_list d) 0 =
                   Rmax (norm_diameter cfg_both * (1/2) ^ (Z.to_nat 2 - 1)) (blur cfg_both))
        by (apply (proj2 (C2_last_blur cfg_both d Hb Hap) 2%Z (1/2) eq_refl eq_refl);
            lra).
      split; [exact Hl |]. rewrite Hl.
      unfold norm_diameter; simpl.
      rewrite (Rmax_left 1 (1/10)) by lra.
      rewrite Rmax_left by lra. lra.
    + exfalso; revert Hap; unfold annealing_parameters;
        rewrite build_blur_list_both; simpl; discriminate.
Defined.

(** C2 fails with both [n_iter = 2] and [scaling = 1/2] given: from
    [diameter = 1] the schedule is [1, 1/2] and stops above [blur = 1/10]. *)
Lemma C2_last_blur_counterexample :
  exists d, annealing_parameters cfg_both = Ok d /\
    last (blur_list d) 0 = 1/2 /\ blur cfg_both = 1/10 /\
    last (blur_list d) 0 <> blur cfg_both.
Proof.
  unfold annealing_parameters; rewrite build_blur_list_both; simpl.
  eexists; split; [reflexivity |]. simpl. split; [reflexivity |].
  split; [reflexivity | lra].
Qed.

(** ** C3 *)

(** C3: with no [n_iter] and [0 < scaling < 1], the number of iterations is
    [floor((ln(blur) - ln(diameter)) / ln(scaling)) + 2], where [diameter]
    is the one of line 143, [max(diameter, blur)]; a returned [blur_list]
    has that length. For [diameter = 1], [blur = 0.01], [scaling = 0.1],
    [p = 2] this gives [n_iter = 4], [blur_list = [1, 0.1, 0.01, 0.01]] and
    [eps_list = [1, 0.01, 0.0001, 0.0001]]. *)
Theorem C3_derived_n_iter (c : config) (s : R)
  (Hb : 0 < blur c) (Hn : n_iter c = None) (Hs : scaling c = Some s)
  (Hs01 : 0 < s < 1) :
  resolve_n_iter c =
    Ok (Int_part ((ln (blur c) - ln (Rmax (diameter c) (blur c))) / ln s) + 2)%Z /\
  (forall d, annealing_parameters c = Ok d ->
     length (blur_list d) =
     Z.to_nat (Int_part ((ln (blur c) - ln (Rmax (diameter c) (blur c))) / ln s) + 2)) /\
  (resolve_n_iter cfg_paper = Ok 4%Z /\
   exists d, annealing_parameters cfg_paper = Ok d /\
     blur_list d = [1; 1/10; 1/100; 1/100] /\
     eps_list d = [1; 1/100; 1/10000; 1/10000]).
Proof.
  assert (Hr : resolve_n_iter c =
    Ok (Int_part ((ln (blur c) - ln (Rmax (diameter c) (blur c))) / ln s) + 2)%Z).
  { unfold resolve_n_iter, check_arguments; rewrite Hn, Hs; simpl.
    decide_floats; simpl; reflexivity. }
  split; [exact Hr |]. split.
  - intros d Hd.
    destruct (annealing_parameters_ok c d Hd) as (n & bl & Hr' & Hbl & _ & Hd').
    rewrite Hr in Hr'; injection Hr' as <-.
    rewrite Hd'; simpl; subst bl. apply make_blur_list_length; assumption.
  - split; [apply resolve_n_iter_paper |].
    unfold annealing_parameters; rewrite build_blur_list_paper; simpl.
    eexists; split; [reflexivity |]. simpl. split; [reflexivity |].
    unfold make_eps_list; simpl.
    f_equal; [| f_equal; [| f_equal; [| f_equal]]]; field.
Qed.

Lemma C3_derived_n_iter_witness :
  0 < blur cfg_paper /\ n_iter cfg_paper = None /\
  scaling cfg_paper = Some (1/10) /\ 0 < 1/10 < 1 /\
  resolve_n_iter cfg_paper =
    Ok (Int_part ((ln (blur cfg_paper) -
                   ln (Rmax (diameter cfg_paper) (blur cfg_paper))) / ln (1/10)) + 2)%Z.
Proof.
  split; [simpl; lra |]. split; [reflexivity |]. split; [reflexivity |].
  split; [lra |].
  apply (C3_derived_n_iter cfg_paper (1/10) ltac:(simpl; lra) eq_refl eq_refl
           ltac:(lra)).
Defined.

(** ** C9 *)




(** * Further properties of the code *)

(** ** [max_diameter] (annealing.py, lines 18-34) *)

(** Elementwise binary operations on (D,) tensors of the same shape. *)
Fixpoint zip_with (f : R -> R -> R) (a b : list R) : list R :=
  match a, b with
  | x :: a', y :: b' => f x y :: zip_with f a' b'
  | _, _ => []
  end.

(** [x.min(dim=0)[0]] (or [max]) on an (N, D) tensor given by its rows;
    torch refuses a reduction over an empty dimension. *)
Definition col_reduce (f : R -> R -> R) (x : list (list R)) : option (list R) :=
  match x with
  | [] => None
  | r :: rs => Some (fold_left (zip_with f) rs r)
  end.

(** [v.norm()]: the Euclidean norm. *)
Definition sumsq (v : list R) : R := fold_right (fun a acc => a * a + acc) 0 v.
Definition norm (v : list R) : R := sqrt (sumsq v).

Definition max_diameter (x y : list (list R)) : option R :=
  match col_reduce Rmin x, col_reduce Rmin y, col_reduce Rmax x, col_reduce Rmax y with
  | Some xmin, Some ymin, Some xmax, Some ymax =>
      let mins := zip_with Rmin xmin ymin in
      let maxs := zip_with Rmax xmax ymax in
      Some (norm (zip_with Rminus maxs mins))
  | _, _, _, _ => None
  end.

(** The distance between two points. *)
Definition dist (a b : list R) : R := norm (zip_with Rminus a b).

Lemma zip_with_length (f : R -> R -> R) (a b : list R) :
  length a = length b -> length (zip_with f a b) = length a.
Proof.
  revert b; induction a as [| x a IH]; intros [| y b] H; simpl in *;
    try discriminate; auto.
Qed.

Lemma zip_with_nth (f : R -> R -> R) (a b : list R) (d : nat) :
  length a = length b -> (d < length a)%nat ->
  nth d (zip_with f a b) 0 = f (nth d a 0) (nth d b 0).
Proof.
  revert b d; induction a as [| x a IH]; intros [| y b] d H Hd; simpl in *;
    try discriminate; try lia.
  destruct d as [| d]; [reflexivity |]. apply IH; lia.
Qed.

(** The column-wise reduction of rows of width [D] has width [D] and, in
    each column, is below (for [Rmin]) every row. *)
Lemma fold_min_spec (D : nat) (rs : list (list R)) (r0 : list R) :
  length r0 = D -> Forall (fun r => length r = D) rs ->
  length (fold_left (zip_with Rmin) rs r0) = D /\
  forall r d, In r (r0 :: rs) -> (d < D)%nat ->
    nth d (fold_left (zip_with Rmin) rs r0) 0 <= nth d r 0.
Proof.
  revert r0; induction rs as [| r1 rs IH]; intros r0 H0 Hall; simpl.
  - split; [assumption |]. intros r d [<- | []] _; lra.
  - apply Forall_cons_iff in Hall as [H1 Hrest].
    assert (Hl : length (zip_with Rmin r0 r1) = D)
      by (rewrite zip_with_length; lia).
    destruct (IH (zip_with Rmin r0 r1) Hl Hrest) as [IHl IHr].
    split; [assumption |]. intros r d Hr Hd.
    assert (Hz : nth d (zip_with Rmin r0 r1) 0 = Rmin (nth d r0 0) (nth d r1 0))
      by (apply zip_with_nth; lia).
    destruct Hr as [<- | [<- | Hr]].
    + eapply Rle_trans; [apply IHr; [left; reflexivity | assumption] |].
      rewrite Hz; apply Rmin_l.
    + eapply Rle_trans; [apply IHr; [left; reflexivity | assumption] |].
      rewrite Hz; apply Rmin_r.
    + apply IHr; [right; assumption | assumption].
Qed.

Lemma fold_max_spec (D : nat) (rs : list (list R)) (r0 : list R) :
  length r0 = D -> Forall (fun r => length r = D) rs ->
  length (fold_left (zip_with Rmax) rs r0) = D /\
  forall r d, In r (r0 :: rs) -> (d < D)%nat ->
    nth d r 0 <= nth d (fold_left (zip_with Rmax) rs r0) 0.
Proof.
  revert r0; induction rs as [| r1 rs IH]; intros r0 H0 Hall; simpl.
  - split; [assumption |]. intros r d [<- | []] _; lra.
  - apply Forall_cons_iff in Hall as [H1 Hrest].
    assert (Hl : length (zip_with Rmax r0 r1) = D)
      by (rewrite zip_with_length; lia).
    destruct (IH (zip_with Rmax r0 r1) Hl Hrest) as [IHl IHr].
    split; [assumption |]. intros r d Hr Hd.
    assert (Hz : nth d (zip_with Rmax r0 r1) 0 = Rmax (nth d r0 0) (nth d r1 0))
      by (apply zip_with_nth; lia).
    destruct Hr as [<- | [<- | Hr]].
    + eapply Rle_trans; [| apply IHr; [left; reflexivity | assumption]].
      rewrite Hz; apply Rmax_l.
    + eapply Rle_trans; [| apply IHr; [left; reflexivity | assumption]].
      rewrite Hz; apply Rmax_r.
    + apply IHr; [right; assumption | assumption].
Qed.

(** Sums of squares compare coordinate by coordinate. *)
Lemma sumsq_le (a b : list R) :
  length a = length b ->
  (forall d, (d < length a)%nat -> nth d a 0 * nth d a 0 <= nth d b 0 * nth d b 0) ->
  sumsq a <= sumsq b.
Proof.
  revert b; induction a as [| x a IH]; intros [| y b] H Hd; simpl in *;
    try discriminate; [lra |].
  pose proof (Hd 0%nat ltac:(lia)) as H0; simpl in H0.
  assert (sumsq a <= sumsq b).
  { apply IH; [lia |]. intros d Hlt; apply (Hd (S d)); lia. }
  lra.
Qed.

(** [max_diameter] is a non-negative upper bound on every distance between a
    point of [x] and a point of [y] (point clouds with rows of one width). *)
Theorem max_diameter_bound (D : nat) (x y : list (list R)) (diam : R)
  (Hx : Forall (fun r => length r = D) x) (Hy : Forall (fun r => length r = D) y)
  (H : max_diameter x y = Some diam) :
  0 <= diam /\ forall a b, In a x -> In b y -> dist a b <= diam.
Proof.
  destruct x as [| r0 rs]; [discriminate |]. destruct y as [| q0 qs]; [discriminate |].
  unfold max_diameter in H; simpl in H; injection H as <-.
  apply Forall_cons_iff in Hx as [Hr0 Hrs]. apply Forall_cons_iff in Hy as [Hq0 Hqs].
  destruct (fold_min_spec D rs r0 Hr0 Hrs) as [Lxmin Pxmin].
  destruct (fold_max_spec D rs r0 Hr0 Hrs) as [Lxmax Pxmax].
  destruct (fold_min_spec D qs q0 Hq0 Hqs) as [Lymin Pymin].
  destruct (fold_max_spec D qs q0 Hq0 Hqs) as [Lymax Pymax].
  set (xmin := fold_left (zip_with Rmin) rs r0) in *.
  set (xmax := fold_left (zip_with Rmax) rs r0) in *.
  set (ymin := fold_left (zip_with Rmin) qs q0) in *.
  set (ymax := fold_left (zip_with Rmax) qs q0) in *.
  split; [apply sqrt_pos |].
  intros a b Ha Hb.
  assert (La : length a = D).
  { destruct Ha as [<- | Ha]; [assumption | rewrite Forall_forall in Hrs; auto]. }
  assert (Lb : length b = D).
  { destruct Hb as [<- | Hb]; [assumption | rewrite Forall_forall in Hqs; auto]. }
  unfold dist, norm; apply sqrt_le_1_alt.
  assert (Lmins : length (zip_with Rmin xmin ymin) = D)
    by (rewrite zip_with_length; lia).
  assert (Lmaxs : length (zip_with Rmax xmax ymax) = D)
    by (rewrite zip_with_length; lia).
  apply sumsq_le.
  - rewrite !zip_with_length; lia.
  - intros d Hd. rewrite zip_with_length in Hd by lia.
    rewrite !zip_with_nth by lia. rewrite La in Hd.
    specialize (Pxmin a d Ha Hd). specialize (Pxmax a d Ha Hd).
    specialize (Pymin b d Hb Hd). specialize (Pymax b d Hb Hd).
    pose proof (Rmin_l (nth d xmin 0) (nth d ymin 0)).
    pose proof (Rmin_r (nth d xmin 0) (nth d ymin 0)).
    pose proof (Rmax_l (nth d xmax 0) (nth d ymax 0)).
    pose proof (Rmax_r (nth d xmax 0) (nth d ymax 0)).
    nra.
Qed.

Lemma max_diameter_bound_witness :
  Forall (fun r => length r = 2%nat) [[0; 0]; [1; 0]] /\
  Forall (fun r => length r = 2%nat) [[0; 2]] /\
  max_diameter [[0; 0]; [1; 0]] [[0; 2]] = Some (norm [1 - 0; 2 - 0]) /\
  0 <= norm [1 - 0; 2 - 0] /\
  forall a b, In a [[0; 0]; [1; 0]] -> In b [[0; 2]] -> dist a b <= norm [1 - 0; 2 - 0].
Proof.
  assert (Hx : Forall (fun r => length r = 2%nat) [[0; 0]; [1; 0]]) by repeat constructor.
  assert (Hy : Forall (fun r => length r = 2%nat) [[0; 2]]) by repeat constructor.
  assert (Hm : max_diameter [[0; 0]; [1; 0]] [[0; 2]] = Some (norm [1 - 0; 2 - 0])).
  { unfold max_diameter; simpl.
    rewrite (Rmax_right 0 1), (Rmax_left 1 0), (Rmin_left 0 1), (Rmin_left 0 0),
      (Rmax_left 0 0), (Rmax_right 0 2), (Rmin_left 0 2) by lra.
    reflexivity. }
  split; [exact Hx |]. split; [exact Hy |]. split; [exact Hm |].
  exact (max_diameter_bound 2 _ _ _ Hx Hy Hm).
Defined.

(** ** The policies of lines 166-187, term by term *)

Lemma floor_term_zero (d b s : R) :
  0 < b -> b <= d -> floor_term d b s 0 = d.
Proof.
  intros Hb Hbd; unfold floor_term; simpl.
  rewrite Rmult_0_l, Rplus_0_r, Rmax_left by (apply ln_le_mono; assumption).
  apply exp_ln; lra.
Qed.

Lemma floor_term_succ (d b s : R) (i : nat) :
  0 < d -> 0 < b -> 0 < s <= 1 ->
  floor_term d b s (S i) = Rmax (floor_term d b s i * s) b.
Proof.
  intros Hd Hb Hs. rewrite !floor_term_closed by lra.
  rewrite (Rmult_comm (Rmax _ _) s), <- RmaxRmult by lra.
  rewrite <- Rmax_assoc, (Rmax_right (s * b) b) by nra.
  simpl; f_equal; ring.
Qed.

Lemma geom_term_succ (d b : R) (N i : nat) :
  geom_term d b N (S i) = geom_term d b N i * exp ((ln b - ln d) / INR (N - 1)).
Proof.
  unfold geom_term; rewrite <- exp_plus, S_INR; f_equal; ring.
Qed.

(** The returned [diameter] is [max(diameter, blur)], and the schedule
    starts there whenever it descends: with a [scaling] below 1, or with no
    [scaling] and at least two iterations. *)
Theorem schedule_starts_at_diameter (c : config) (d : DescentParameters)
  (Hb : 0 < blur c) (H : annealing_parameters c = Ok d) :
  dp_diameter d = Rmax (diameter c) (blur c) /\ blur c <= dp_diameter d /\
  ((exists s, scaling c = Some s /\ s <> 1) \/
   (scaling c = None /\ (2 <= length (blur_list d))%nat) ->
   nth 0 (blur_list d) 0 = dp_diameter d).
Proof.
  destruct (annealing_parameters_ok c d H) as (n & bl & Hr & Hbl & _ & Hd).
  pose proof (norm_diameter_ge c) as Hbd.
  pose proof (make_blur_list_length c n Hb Hr) as Hlen.
  pose proof (resolve_n_iter_pos c n Hb Hr) as Hn.
  rewrite Hd; simpl. split; [reflexivity |]. split; [exact Hbd |].
  rewrite <- Hbl in Hlen. subst bl.
  intros [(s & Hs & Hs1) | [Hs Hl]]; unfold make_blur_list; rewrite Hs.
  - replace (Reqb s 1) with false by (symmetry; apply Reqb_false; assumption).
    rewrite floored_as_map, nth_map_seq by lia. apply floor_term_zero; assumption.
  - rewrite Hlen in Hl.
    destruct (Z.eqb_spec n 1) as [-> | Hn1]; [simpl in Hl; lia |].
    rewrite geomspace_shape, nth_map_seq by (assumption || lia).
    apply (geom_term_end_points (norm_diameter c) (blur c) (Z.to_nat n) Hb
             ltac:(lra) Hl).
Qed.

Lemma schedule_starts_at_diameter_witness :
  0 < blur cfg_paper /\
  exists d, annealing_parameters cfg_paper = Ok d /\
    dp_diameter d = Rmax (diameter cfg_paper) (blur cfg_paper) /\
    blur cfg_paper <= dp_diameter d /\
    ((exists s, scaling cfg_paper = Some s /\ s <> 1) \/
     (scaling cfg_paper = None /\ (2 <= length (blur_list d))%nat) ->
     nth 0 (blur_list d) 0 = dp_diameter d).
Proof.
  assert (Hb : 0 < blur cfg_paper) by (simpl; lra).
  split; [exact Hb |].
  destruct (annealing_parameters cfg_paper) as [d |] eqn:Hap.
  - exists d; split; [reflexivity |].
    apply (schedule_starts_at_diameter cfg_paper d Hb Hap).
  - exfalso; revert Hap; unfold annealing_parameters.
    rewrite build_blur_list_paper; simpl; discriminate.
Defined.

(** With a [scaling] below 1 (given [n_iter] or derived), each blur value is
    the previous one times [scaling], floored at [blur]. *)
Theorem scaling_schedule_step (c : config) (d : DescentParameters) (s : R)
  (Hb : 0 < blur c) (H : annealing_parameters c = Ok d)
  (Hs : scaling c = Some s) (Hs1 : s <> 1) :
  forall i, (S i < length (blur_list d))%nat ->
    nth (S i) (blur_list d) 0 = Rmax (nth i (blur_list d) 0 * s) (blur c).
Proof.
  destruct (annealing_parameters_ok c d H) as (n & bl & Hr & Hbl & _ & Hd).
  pose proof (norm_diameter_ge c) as Hbd.
  pose proof (resolve_n_iter_scaling c n s Hr Hs) as Hs01.
  rewrite Hd; simpl; subst bl. unfold make_blur_list; rewrite Hs.
  replace (Reqb s 1) with false by (symmetry; apply Reqb_false; assumption).
  rewrite floored_as_map, length_map, length_seq. intros i Hi.
  rewrite !nth_map_seq by lia. apply floor_term_succ; lra.
Qed.

Lemma scaling_schedule_step_witness :
  0 < blur cfg_paper /\ scaling cfg_paper = Some (1/10) /\ 1/10 <> 1 /\
  annealing_parameters cfg_paper =
    Ok (mk_descent (norm_diameter cfg_paper) []
          (make_eps_list 2 [1; 1/10; 1/100; 1/100]) [1; 1/10; 1/100; 1/100]
          (make_rho_list 2 None [1; 1/10; 1/100; 1/100])) /\
  nth 2 [1; 1/10; 1/100; 1/100] 0 = Rmax (nth 1 [1; 1/10; 1/100; 1/100] 0 * (1/10)) (1/100).
Proof.
  assert (Hap : annealing_parameters cfg_paper =
    Ok (mk_descent (norm_diameter cfg_paper) []
          (make_eps_list 2 [1; 1/10; 1/100; 1/100]) [1; 1/10; 1/100; 1/100]
          (make_rho_list 2 None [1; 1/10; 1/100; 1/100]))).
  { unfold annealing_parameters; rewrite build_blur_list_paper; reflexivity. }
  split; [simpl; lra |]. split; [reflexivity |]. split; [lra |].
  split; [exact Hap |].
  exact (scaling_schedule_step cfg_paper _ (1/10) ltac:(simpl; lra) Hap eq_refl
           ltac:(lra) 1%nat ltac:(simpl; lia)).
Defined.

(** With [n_iter >= 2] and no [scaling], consecutive blur values have the
    constant ratio [exp((ln(blur) - ln(diameter)) / (n_iter - 1))], that is
    [(blur / diameter) ** (1 / (n_iter - 1))], [diameter] being the returned
    one. *)
Theorem geomspace_schedule_ratio (c : config) (d : DescentParameters) (m : Z)
  (Hb : 0 < blur c) (H : annealing_parameters c = Ok d)
  (Hs : scaling c = None) (Hm : n_iter c = Some m) (H2 : (2 <= m)%Z) :
  forall i, (S i < length (blur_list d))%nat ->
    nth (S i) (blur_list d) 0 =
    nth i (blur_list d) 0 *
    exp ((ln (blur c) - ln (dp_diameter d)) / INR (Z.to_nat m - 1)).
Proof.
  destruct (annealing_parameters_ok c d H) as (n & bl & Hr & Hbl & _ & Hd).
  pose proof (norm_diameter_ge c) as Hbd.
  pose proof (resolve_n_iter_given c m n Hm Hr); subst n.
  rewrite Hd; simpl; subst bl. unfold make_blur_list; rewrite Hs.
  destruct (Z.eqb_spec m 1) as [Hm1 | _]; [lia |].
  rewrite geomspace_shape, length_map, length_seq by (assumption || lia).
  intros i Hi. rewrite !nth_map_seq by lia. apply geom_term_succ.
Qed.

Lemma geomspace_schedule_ratio_witness :
  0 < blur cfg_geom /\ scaling cfg_geom = None /\ n_iter cfg_geom = Some 3%Z /\
  (2 <= 3)%Z /\
  exists d, annealing_parameters cfg_geom = Ok d /\
    (forall i, (S i < length (blur_list d))%nat ->
       nth (S i) (blur_list d) 0 =
       nth i (blur_list d) 0 *
       exp ((ln (blur cfg_geom) - ln (dp_diameter d)) / INR (Z.to_nat 3 - 1))).
Proof.
  assert (Hb : 0 < blur cfg_geom) by (simpl; lra).
  split; [exact Hb |]. split; [reflexivity |]. split; [reflexivity |].
  split; [lia |].
  destruct (annealing_parameters cfg_geom) as [d |] eqn:Hap.
  - exists d; split; [reflexivity |].
    exact (geomspace_schedule_ratio cfg_geom d 3 Hb Hap eq_refl eq_refl ltac:(lia)).
  - exfalso; revert Hap.
    unfold annealing_parameters, build_blur_list, resolve_n_iter, check_arguments.
    simpl; discriminate.
Defined.

(** With [n_iter] derived from [scaling] (line 158), the schedule has at
    least two values and all but the last two are strictly above [blur]:
    at most two iterations run at the target temperature. *)
Theorem derived_schedule_above_floor (c : config) (d : DescentParameters)
  (Hb : 0 < blur c) (H : annealing_parameters c = Ok d) (Hn : n_iter c = None) :
  (2 <= length (blur_list d))%nat /\
  forall i, (i + 2 < length (blur_list d))%nat -> blur c < nth i (blur_list d) 0.
Proof.
  destruct (annealing_parameters_ok c d H) as (n & bl & Hr & Hbl & _ & Hd).
  pose proof (norm_diameter_ge c) as Hbd.
  destruct (resolve_n_iter_derived c n Hr Hn) as (s & Hs & Hs01 & Hnd).
  pose proof (derived_n_iter_ge_2 _ _ _ Hb Hbd Hs01) as H2.
  rewrite Hd; simpl; subst bl. unfold make_blur_list; rewrite Hs.
  replace (Reqb s 1) with false by (symmetry; apply Reqb_false; lra).
  rewrite floored_as_map, length_map, length_seq.
  split; [lia |]. intros i Hi. rewrite nth_map_seq by lia.
  unfold floor_term.
  set (r := (ln (blur c) - ln (norm_diameter c)) / ln s) in *.
  unfold derived_n_iter in Hnd; fold r in Hnd.
  destruct (base_Int_part r) as [Hlow _].
  assert (Hi' : (Z.of_nat i + 1 <= Int_part r)%Z) by lia.
  apply IZR_le in Hi'; rewrite plus_IZR in Hi'.
  pose proof (ln_neg s Hs01) as Hl.
  assert (Hrs : r * ln s = ln (blur c) - ln (norm_diameter c)) by (unfold r; field; lra).
  assert (Hx : ln (blur c) < ln (norm_diameter c) + IZR (Z.of_nat i) * ln s) by nra.
  rewrite Rmax_left by lra.
  rewrite <- (exp_ln (blur c) Hb) at 1. apply exp_increasing; assumption.
Qed.

Lemma derived_schedule_above_floor_witness :
  0 < blur cfg_paper /\ n_iter cfg_paper = None /\
  exists d, annealing_parameters cfg_paper = Ok d /\
    (2 <= length (blur_list d))%nat /\
    (forall i, (i + 2 < length (blur_list d))%nat ->
       blur cfg_paper < nth i (blur_list d) 0).
Proof.
  assert (Hb : 0 < blur cfg_paper) by (simpl; lra).
  split; [exact Hb |]. split; [reflexivity |].
  destruct (annealing_parameters cfg_paper) as [d |] eqn:Hap.
  - exists d; split; [reflexivity |].
    exact (derived_schedule_above_floor cfg_paper d Hb Hap eq_refl).
  - exfalso; revert Hap; unfold annealing_parameters.
    rewrite build_blur_list_paper; simpl; discriminate.
Defined.

(** For a non-negative exponent [p], the temperatures [eps_list] are
    non-increasing and bounded below by [blur ** p]. *)
Theorem eps_schedule (c : config) (d : DescentParameters)
  (Hb : 0 < blur c) (H : annealing_parameters c = Ok d) (Hp : (0 <= p c)%Z) :
  (forall i j, (i <= j < length (eps_list d))%nat ->
     nth j (eps_list d) 0 <= nth i (eps_list d) 0) /\
  (forall e, In e (eps_list d) -> powerRZ (blur c) (p c) <= e).
Proof.
  destruct (annealing_parameters_ok c d H) as (n & bl & Hr & Hbl & _ & Hd).
  destruct (blur_list_shape c n Hb Hr) as (f & Hf & [Hanti Hge]).
  rewrite Hd; simpl; unfold make_eps_list.
  rewrite Hbl, Hf, map_map.
  replace (p c) with (Z.of_nat (Z.to_nat (p c))) by lia.
  set (k := Z.to_nat (p c)).
  split.
  - rewrite length_map, length_seq. intros i j Hij.
    rewrite !nth_map_seq by lia. rewrite <- !pow_powerRZ.
    apply pow_incr. pose proof (Hge j ltac:(lia)). split; [lra |].
    apply Hanti; lia.
  - intros e He. apply in_map_iff in He as (i & <- & Hi); apply in_seq in Hi.
    rewrite <- !pow_powerRZ. apply pow_incr.
    pose proof (Hge i ltac:(lia)); lra.
Qed.

Lemma eps_schedule_witness :
  0 < blur cfg_paper /\ (0 <= p cfg_paper)%Z /\
  exists d, annealing_parameters cfg_paper = Ok d /\
    (forall i j, (i <= j < length (eps_list d))%nat ->
       nth j (eps_list d) 0 <= nth i (eps_list d) 0) /\
    (forall e, In e (eps_list d) -> powerRZ (blur cfg_paper) (p cfg_paper) <= e).
Proof.
  assert (Hb : 0 < blur cfg_paper) by (simpl; lra).
  split; [exact Hb |]. split; [simpl; lia |].
  destruct (annealing_parameters cfg_paper) as [d |] eqn:Hap.
  - exists d; split; [reflexivity |].
    exact (eps_schedule cfg_paper d Hb Hap ltac:(simpl; lia)).
  - exfalso; revert Hap; unfold annealing_parameters.
    rewrite build_blur_list_paper; simpl; discriminate.
Defined.

(** ** Atlas subsampling (examples/brain_tractograms/plot_transfer_labels.py) *)

(** Lines 143-145: every cluster range [(start_j, end_j)] must be non-empty. *)
Fixpoint check_clusters (ranges : list (Z * Z)) : result unit :=
  match ranges with
  | [] => Ok tt
  | (s, e) :: rs => if (e <=? s)%Z then Err ValueError else check_clusters rs
  end.

(** Python's [range(start, stop, step)] for [step > 0]: its length is
    [max(0, (stop - start + step - 1) // step)]. *)
Definition py_range (start stop step : Z) : list Z :=
  map (fun k => (start + step * Z.of_nat k)%Z)
      (seq 0 (Z.to_nat ((stop - start + step - 1) / step)%Z)).

(** Lines 160-162: [to_keep += list(range(start_j, end_j, subsample))]. *)
Definition to_keep (ranges : list (Z * Z)) (subsample : Z) : list Z :=
  fold_left (fun acc '(s, e) => acc ++ py_range s e subsample) ranges [].

Lemma py_range_spec (s e st x : Z) :
  (0 < st)%Z ->
  In x (py_range s e st) <-> (s <= x < e)%Z /\ ((x - s) mod st = 0)%Z.
Proof.
  intros Hst; unfold py_range; rewrite in_map_iff.
  set (L := ((e - s + st - 1) / st)%Z).
  pose proof (Z.mul_div_le (e - s + st - 1) st Hst) as HL; fold L in HL.
  split.
  - intros (k & <- & Hk); apply in_seq in Hk.
    assert (Hk' : (Z.of_nat k + 1 <= L)%Z) by lia.
    split; [nia |].
    replace (s + st * Z.of_nat k - s)%Z with (Z.of_nat k * st)%Z by ring.
    apply Z_mod_mult.
  - intros [Hx Hm].
    pose proof (Z_div_mod_eq_full (x - s) st) as Hdm; rewrite Hm, Z.add_0_r in Hdm.
    set (q := ((x - s) / st)%Z) in *.
    assert (Hq : (0 <= q)%Z) by (apply Z.div_pos; lia).
    assert (Hq1 : (q + 1 <= L)%Z).
    { unfold L; apply Z.div_le_lower_bound; [lia | nia]. }
    exists (Z.to_nat q); split; [rewrite Z2Nat.id by lia; lia |].
    apply in_seq; lia.
Qed.

Lemma fold_append_spec (sub : Z) (ranges : list (Z * Z)) (acc : list Z) (x : Z) :
  In x (fold_left (fun acc '(s, e) => acc ++ py_range s e sub) ranges acc) <->
  In x acc \/ exists s e, In (s, e) ranges /\ In x (py_range s e sub).
Proof.
  revert acc; induction ranges as [| [s e] rs IH]; intros acc; simpl.
  - split; [left; assumption | intros [H | (s & e & [] & _)]; assumption].
  - rewrite IH, in_app_iff. split.
    + intros [[H | H] | (s' & e' & H & Hx)]; [left; assumption | |].
      * right; exists s, e; split; [left; reflexivity | assumption].
      * right; exists s', e'; split; [right |]; assumption.
    + intros [H | (s' & e' & [Heq | H] & Hx)].
      * left; left; assumption.
      * injection Heq as -> ->; left; right; assumption.
      * right; exists s', e'; split; assumption.
Qed.

(** The kept indices are exactly the indices of a cluster range that lie a
    multiple of [subsample] after the start of their range. *)
Theorem to_keep_spec (ranges : list (Z * Z)) (sub : Z) (Hsub : (0 < sub)%Z) :
  forall x, In x (to_keep ranges sub) <->
    exists s e, In (s, e) ranges /\ (s <= x < e)%Z /\ ((x - s) mod sub = 0)%Z.
Proof.
  intros x; unfold to_keep; rewrite fold_append_spec. split.
  - intros [[] | (s & e & Hr & Hx)].
    exists s, e; split; [assumption |]. apply py_range_spec; assumption.
  - intros (s & e & Hr & Hx); right; exists s, e; split; [assumption |].
    apply py_range_spec; assumption.
Qed.

Lemma to_keep_spec_witness :
  (0 < 20)%Z /\
  (forall x, In x (to_keep [(0, 45); (45, 50)]%Z 20) <->
    exists s e, In (s, e) [(0, 45); (45, 50)]%Z /\ (s <= x < e)%Z /\
                ((x - s) mod 20 = 0)%Z) /\
  to_keep [(0, 45); (45, 50)]%Z 20 = [0; 20; 40; 45]%Z.
Proof.
  split; [lia |]. split; [apply to_keep_spec; lia | reflexivity].
Defined.

(** Once the check of lines 143-145 has passed, the subsampling keeps the
    first fiber of every cluster, so no cluster of the atlas is dropped. *)
Theorem to_keep_keeps_every_cluster (ranges : list (Z * Z)) (sub : Z)
  (Hsub : (0 < sub)%Z) (Hchk : check_clusters ranges = Ok tt) :
  forall s e, In (s, e) ranges -> In s (to_keep ranges sub).
Proof.
  intros s e Hr. apply to_keep_spec; [assumption |].
  exists s, e; split; [assumption |]. split; [| rewrite Z.sub_diag; reflexivity].
  clear Hsub. induction ranges as [| [s' e'] rs IH]; [destruct Hr |].
  simpl in Hchk. destruct (Z.leb_spec e' s') as [_ | He]; [discriminate |].
  destruct Hr as [Heq | Hr]; [injection Heq as -> ->; lia | auto].
Qed.

Lemma to_keep_keeps_every_cluster_witness :
  (0 < 20)%Z /\ check_clusters [(0, 45); (45, 50)]%Z = Ok tt /\
  In 45%Z (to_keep [(0, 45); (45, 50)]%Z 20).
Proof.
  split; [lia |]. split; [reflexivity |].
  apply (to_keep_keeps_every_cluster [(0, 45); (45, 50)]%Z 20 ltac:(lia) eq_refl 45 50).
  right; left; reflexivity.
Defined.
